(** * mjpeg: a shallow embedding of [stream.go]

    The development follows the source file top to bottom: the pieces of the
    Go runtime the package leans on (durations and their float64 seconds,
    [fmt.Sprintf] with the [%d] verb, byte slices over shared backing arrays,
    channels with a non-blocking send), then [Stream] with [NewStream],
    [frameHeader], [updateFrame], [UpdateJPEG] and the per-connection loop of
    [ServeHTTP], and finally the properties of the broadcaster. *)

From Stdlib Require Import ZArith Lia Bool Ascii String Strings.Byte DecimalString SpecFloat.
From Stdlib Require DecimalPos DecimalZ.
From stdpp Require Import base list gmap.

(** ** Package [time] *)

Module time.

Local Open Scope Z_scope.

(** [time.Duration] is an int64 count of nanoseconds. *)
Definition Duration := Z.

Definition Nanosecond : Duration := 1.
Definition Microsecond : Duration := 1000 * Nanosecond.
Definition Millisecond : Duration := 1000 * Microsecond.
Definition Second : Duration := 1000 * Millisecond.

Definition minDuration : Duration := - 2 ^ 63.
Definition maxDuration : Duration := 2 ^ 63 - 1.

(** [time.Time] as nanoseconds counted from the zero Time. *)
Definition Time := Z.

(** The zero value of [time.Time], what an unset [start] field holds. *)
Definition zeroTime : Time := 0.

(** [t.Sub(u)]: the difference, pinned to the Duration range when it does
    not fit. *)
Definition Sub (t u : Time) : Duration :=
  let d := t - u in
  if d <? minDuration then minDuration
  else if maxDuration <? d then maxDuration
  else d.

(** [time.Since(t)] is [time.Now().Sub(t)]; the clock reading is passed in. *)
Definition Since (now t : Time) : Duration := Sub now t.

(** [d.Microseconds()]: [int64(d) / 1e3], Go's division truncates. *)
Definition Microseconds (d : Duration) : Z := Z.quot d 1000.

(** *** float64

    IEEE 754 binary64 through the standard library's [SpecFloat], which
    defines the operations on sign, mantissa and exponent. *)

Definition prec : Z := 53.
Definition emax : Z := 1024.

Definition float64 := spec_float.

(** [float64(n)] for an integer [n], rounded to nearest even. *)
Definition float64_of_int (n : Z) : float64 := binary_normalize prec emax n 0 false.

Definition fadd : float64 -> float64 -> float64 := SFadd prec emax.
Definition fdiv : float64 -> float64 -> float64 := SFdiv prec emax.

(** [int64(f)]: the fraction is discarded (truncation towards zero).  The
    result for infinities and NaN is implementation specific; amd64 gives
    the smallest int64. *)
Definition int64_of_float (f : float64) : Z :=
  match f with
  | S754_zero _ => 0
  | S754_finite s m e =>
      let a := if 0 <=? e then Z.pos m * 2 ^ e else Z.quot (Z.pos m) (2 ^ (- e)) in
      if s then - a else a
  | S754_infinity _ | S754_nan => - 2 ^ 63
  end.

(** [d.Seconds()]:
<<
    sec := d / Second
    nsec := d % Second
    return float64(sec) + float64(nsec)/1e9
>> *)
Definition Seconds (d : Duration) : float64 :=
  let sec := Z.quot d Second in
  let nsec := Z.rem d Second in
  fadd (float64_of_int sec) (fdiv (float64_of_int nsec) (float64_of_int 1000000000)).

End time.

(** ** Package [fmt] *)

Module fmt.

Local Open Scope string_scope.

(** The [%d] verb on an integer: decimal digits, a leading [-] when
    negative, no padding. *)
Definition formatInt (n : Z) : string := NilZero.string_of_int (Z.to_int n).

(** [fmt.Sprintf] for formats whose only verb is [%d], which is all
    [headerf] uses.  An operand that is missing prints as Go prints it. *)
Fixpoint Sprintf (format : string) (a : list Z) : string :=
  match format with
  | EmptyString => EmptyString
  | String c rest =>
      if Ascii.eqb c "%" then
        match rest with
        | EmptyString => "%!(NOVERB)"
        | String v rest' =>
            if Ascii.eqb v "d" then
              match a with
              | x :: a' => formatInt x ++ Sprintf rest' a'
              | [] => "%!d(MISSING)" ++ Sprintf rest' []
              end
            else String c (Sprintf rest a)
        end
      else String c (Sprintf rest a)
  end.

End fmt.

(** ** Byte slices

    A Go slice is a window on a backing array that other slices may share.
    Backing arrays live in a heap addressed by allocation order; a slice
    records its array, its first index and its length.  (Capacity is left
    out: the package never appends or reslices upwards.) *)

Record slice := Slice { base : nat; off : nat; len : nat }.

Abbreviation Heap := (list (list byte)).

(** [make([]byte, n)]: a fresh array of [n] zero bytes. *)
Definition make (n : nat) (h : Heap) : slice * Heap :=
  (Slice (length h) 0 n, h ++ [replicate n x00]).

(** [s[i:]]; Go panics unless [i <= len(s)]. *)
Definition slice_from (s : slice) (i : nat) : slice :=
  Slice (base s) (off s + i) (len s - i).

(** The bytes a slice shows at the moment it is read. *)
Definition bytes_of (h : Heap) (s : slice) : list byte :=
  take (len s) (drop (off s) (default [] (h !! base s))).

(** [arr] with [src] laid over it from index [i] on. *)
Definition write_at (arr : list byte) (i : nat) (src : list byte) : list byte :=
  take i arr ++ src ++ drop (i + length src) arr.

(** [copy(dst, src)]: the first [min(len(dst), len(src))] bytes of [src]
    overwrite the start of [dst], in the backing array. *)
Definition copy (dst : slice) (src : list byte) (h : Heap) : Heap :=
  let n := Nat.min (len dst) (length src) in
  alter (fun arr => write_at arr (off dst) (take n src)) (base dst) h.

(** ** Channels and the goroutine of one connection

    Each [ServeHTTP] call owns one channel and is its only receiver, so the
    channel and the program point of its goroutine are kept together. *)

Inductive pc :=
  | Sleeping               (* in [time.Sleep(s.FrameInterval)] *)
  | Receiving              (* parked in [b := <-c] *)
  | Writing (b : slice)    (* holds [b], about to [w.Write(b)] *)
  | Exited.                (* left the loop and returned *)

Record conn := Conn {
  ch_cap : nat;            (* capacity given to [make(chan []byte, cap)] *)
  ch_buf : list slice;     (* sent, not yet received; never longer than [ch_cap] *)
  at_pc : pc;
  wire : list byte         (* everything written to the ResponseWriter so far *)
}.

(** [make(chan []byte, n)], with the goroutine that made it about to sleep. *)
Definition make_chan (n : nat) : conn := Conn n [] Sleeping [].

(** [select { case c <- v: default: }].  As in the runtime's [chansend]
    with [block = false]: a parked receiver takes the value directly, else
    the value is buffered when there is room, else the default case runs and
    the value is dropped. *)
Definition trySend (v : slice) (cn : conn) : conn :=
  match at_pc cn with
  | Receiving => Conn (ch_cap cn) (ch_buf cn) (Writing v) (wire cn)
  | _ =>
      if (length (ch_buf cn) <? ch_cap cn)%nat
      then Conn (ch_cap cn) (ch_buf cn ++ [v]) (at_pc cn) (wire cn)
      else cn
  end.

(** [b := <-c]: take the oldest buffered value, or park. *)
Definition recv (cn : conn) : conn :=
  match ch_buf cn with
  | v :: q => Conn (ch_cap cn) q (Writing v) (wire cn)
  | [] => Conn (ch_cap cn) [] Receiving (wire cn)
  end.

(** ** Stream *)

Record Stream := mkStream {
  start : time.Time;
  m : gmap nat bool;       (* [map[chan []byte]bool], keyed by channel identity *)
  frame : slice;
  FrameInterval : time.Duration
}.

(** A stream together with the memory and the goroutines around it.  The
    mutex is not represented: every operation below is one atomic step, and
    runs are interleavings of such steps. *)
Record World := mkWorld {
  stream : Stream;
  heap : Heap;
  conns : list conn        (* channel [c] is [conns !! c] *)
}.

Definition boundaryWord : string := "MJPEGBOUNDARY".

Definition CRLF : string := String "013" (String "010" EmptyString).

Definition headerf : string :=
  (CRLF ++
   "--" ++ boundaryWord ++ CRLF ++
   "Content-Type: image/jpeg" ++ CRLF ++
   "Content-Length: %d" ++ CRLF ++
   "X-Timestamp: %d.%d" ++ CRLF ++
   CRLF)%string.

(** [NewStream]: an empty registry, a frame of [len(headerf)] zero bytes,
    a 50ms interval; [start] keeps its zero value. *)
Definition NewStream : World :=
  let '(fr, h) := make (String.length headerf) [] in
  mkWorld (mkStream time.zeroTime ∅ fr (50 * time.Millisecond)%Z) h [].

(** [frameHeader]; the receiver is not used by the body. *)
Definition frameHeader (s : Stream) (jpeg : list byte) (elapsed : time.Duration) : string :=
  let sec := time.int64_of_float (time.Seconds elapsed) in
  let usec := Z.rem (time.Microseconds elapsed) 1000000 in
  fmt.Sprintf headerf [Z.of_nat (length jpeg); sec; usec].

(** [updateFrame].  Lengths are natural numbers: a 64-bit Go [int] holds
    twice the length of anything that fits in memory. *)
Definition updateFrame (jpeg : list byte) (elapsed : time.Duration) (w : World) : World :=
  let header := frameHeader (stream w) jpeg elapsed in
  let s := stream w in
  let '(fr, h) :=
    if (len (frame s) <? length jpeg + String.length header)%nat
    then make ((length jpeg + String.length header) * 2) (heap w)
    else (frame s, heap w) in
  let h := copy fr (list_byte_of_string header) h in
  let h := copy (slice_from fr (String.length header)) jpeg h in
  mkWorld (mkStream (start s) (m s) fr (FrameInterval s)) h (conns w).

(** The keys [for c := range s.m] visits, in the order this map lists
    them (Go leaves the order open; each send touches its own channel only). *)
Definition range (reg : gmap nat bool) : list nat := (map_to_list reg).*1.

(** [UpdateJPEG]; [now] is what [time.Since] reads from the clock. *)
Definition UpdateJPEG (jpeg : list byte) (now : time.Time) (w : World) : World :=
  if (length jpeg =? 0)%nat then w
  else
    let elapsed := time.Since now (start (stream w)) in
    let w := updateFrame jpeg elapsed w in
    let s := stream w in
    mkWorld s (heap w)
      (foldl (fun cs c => alter (trySend (frame s)) c cs) (conns w) (range (m s))).

(** *** ServeHTTP, one step at a time *)

(** Lines 41-45, the attach (the specification's [subscribe]): make the
    channel, register it, set [start]. *)
Definition ServeHTTP_attach (now : time.Time) (w : World) : World :=
  let s := stream w in
  let c := length (conns w) in
  mkWorld (mkStream now (<[c := true]> (m s)) (frame s) (FrameInterval s))
          (heap w) (conns w ++ [make_chan 0]).

(** Lines 48-49: the sleep is over, the goroutine receives from [c]. *)
Definition ServeHTTP_receive (c : nat) (w : World) : World :=
  match conns w !! c with
  | Some cn =>
      match at_pc cn with
      | Sleeping => mkWorld (stream w) (heap w) (<[c := recv cn]> (conns w))
      | _ => w
      end
  | None => w
  end.

(** Lines 57-59, the detach (the specification's [unsubscribe]):
    [delete(s.m, c)]. *)
Definition ServeHTTP_detach (c : nat) (s : Stream) : Stream :=
  mkStream (start s) (delete c (m s)) (frame s) (FrameInterval s).

(** Lines 50-59: [w.Write(b)] sends what [b] shows now; on an error
    (taken to have sent nothing) the loop is left and the channel is
    unregistered. *)
Definition ServeHTTP_write (c : nat) (ok : bool) (w : World) : World :=
  match conns w !! c with
  | Some cn =>
      match at_pc cn with
      | Writing b =>
          if ok then
            mkWorld (stream w) (heap w)
              (<[c := Conn (ch_cap cn) (ch_buf cn) Sleeping (wire cn ++ bytes_of (heap w) b)]> (conns w))
          else
            mkWorld (ServeHTTP_detach c (stream w)) (heap w)
              (<[c := Conn (ch_cap cn) (ch_buf cn) Exited (wire cn)]> (conns w))
      | _ => w
      end
  | None => w
  end.

(** ** Runs *)

Inductive event :=
  | Attach (now : time.Time)
  | Wake (c : nat)
  | Write (c : nat) (ok : bool)
  | Publish (jpeg : list byte) (now : time.Time).

Definition step (w : World) (e : event) : World :=
  match e with
  | Attach now => ServeHTTP_attach now w
  | Wake c => ServeHTTP_receive c w
  | Write c ok => ServeHTTP_write c ok w
  | Publish jpeg now => UpdateJPEG jpeg now w
  end.

Definition run (evs : list event) (w : World) : World := foldl step w evs.

(** ** Vocabulary of the statements *)

(** [len(jpeg)+len(header)], the room [updateFrame] asks of the frame. *)
Definition need (s : Stream) (jpeg : list byte) (elapsed : time.Duration) : nat :=
  length jpeg + String.length (frameHeader s jpeg elapsed).

(** The clock readings of the attaches of a run, oldest first. *)
Definition attaches (evs : list event) : list time.Time :=
  omap (fun e => match e with Attach now => Some now | _ => None end) evs.

(** The frame is the whole of its backing array. *)
Definition frame_ok (w : World) : Prop :=
  off (frame (stream w)) = 0 /\
  length <$> heap w !! base (frame (stream w)) = Some (len (frame (stream w))).

(** What every world reached from [NewStream] satisfies. *)
Record Inv (w : World) : Prop := mkInv {
  inv_frame : frame_ok w;
  inv_conns : forall i cn, conns w !! i = Some cn ->
    ch_cap cn = 0 /\ ch_buf cn = [] /\
    forall b, at_pc cn = Writing b -> base b < length (heap w)
}.

(** Has the goroutine left [ServeHTTP]? *)
Definition is_exited (p : pc) : bool :=
  match p with Exited => true | _ => false end.

(** The registry holds, with value [true], exactly the channels whose
    [ServeHTTP] loop is still running. *)
Definition registry_ok (w : World) : Prop :=
  forall c, m (stream w) !! c =
    match conns w !! c with
    | Some cn => if is_exited (at_pc cn) then None else Some true
    | None => None
    end.


(** The largest [len(jpeg)+len(header)] a non-empty publish of the run
    asks for, each publish measured in the world it is made in. *)
Fixpoint peak_need (evs : list event) (w : World) : nat :=
  match evs with
  | [] => 0
  | e :: evs' =>
      Nat.max
        match e with
        | Publish jpeg now =>
            if (length jpeg =? 0)%nat then 0
            else need (stream w) jpeg (time.Since now (start (stream w)))
        | _ => 0
        end
        (peak_need evs' (step w e))
  end.

(** What the characters [%d] prints have in common (they are digits and
    the minus sign): neither a carriage return nor a dot. *)
Definition field_char (c : ascii) : Prop := c <> "013"%char /\ c <> "."%char.

(** * Properties *)

Example formatInt_samples :
  fmt.formatInt 0 = "0"%string /\ fmt.formatInt 5000 = "5000"%string /\
  fmt.formatInt (-42)%Z = "-42"%string.
Proof. repeat split; reflexivity. Qed.

Example Seconds_samples :
  time.int64_of_float (time.Seconds (15535 * time.Millisecond)%Z) = 15%Z /\
  time.int64_of_float (time.Seconds 999999999%Z) = 0%Z /\
  time.int64_of_float (time.Seconds (- 1500 * time.Millisecond)%Z) = (-1)%Z.
Proof. repeat split; vm_compute; reflexivity. Qed.

Example headerf_length : String.length headerf = 87.
Proof. reflexivity. Qed.

(** [TestFrameHeader] of stream_test.go. *)
Example TestFrameHeader :
  frameHeader (stream NewStream) (list_byte_of_string "test_frame") (15535 * time.Millisecond)%Z
  = (CRLF ++ "--MJPEGBOUNDARY" ++ CRLF ++ "Content-Type: image/jpeg" ++ CRLF ++
     "Content-Length: 10" ++ CRLF ++ "X-Timestamp: 15.535000" ++ CRLF ++ CRLF)%string.
Proof. vm_compute. reflexivity. Qed.

(** ** Strings, arrays and copies *)

Lemma length_list_byte_of_string (s : string) :
  length (list_byte_of_string s) = String.length s.
Proof.
  unfold list_byte_of_string. rewrite List.length_map.
  induction s as [|c s IH]; simpl; congruence.
Qed.

Lemma write_at_length arr i src :
  i + length src <= length arr -> length (write_at arr i src) = length arr.
Proof.
  intros Hle. unfold write_at.
  rewrite !length_app, length_take, length_drop. lia.
Qed.

(** Copying a header and then a payload behind it into a large enough array
    leaves the two at its start and the old bytes after them. *)
Lemma write_header_then_payload arr hd jp :
  length hd + length jp <= length arr ->
  write_at (write_at arr 0 hd) (length hd) jp
  = hd ++ jp ++ drop (length hd + length jp) arr.
Proof.
  intros Hle. unfold write_at. simpl.
  rewrite take_app_length. f_equal. f_equal.
  rewrite drop_app_ge by lia. rewrite drop_drop. f_equal. lia.
Qed.

Section copy_frame.

Variables (h : Heap) (fr : slice) (arr hd jp : list byte).
Hypothesis Hoff : off fr = 0.
Hypothesis Harr : h !! base fr = Some arr.
Hypothesis Hlen : length arr = len fr.
Hypothesis Hfit : length hd + length jp <= len fr.

Let h' := copy (slice_from fr (length hd)) jp (copy fr hd h).

Lemma copy_frame_lookup :
  h' !! base fr = Some (hd ++ jp ++ drop (length hd + length jp) arr).
Proof using Hoff Harr Hlen Hfit.
  subst h'. unfold copy, slice_from. simpl.
  rewrite list_lookup_alter_eq, list_lookup_alter_eq, Harr. simpl.
  rewrite Hoff, Nat.min_r by lia. rewrite Nat.min_r by lia.
  rewrite !firstn_all. simpl.
  now rewrite write_header_then_payload by lia.
Qed.

Lemma copy_frame_other j : j <> base fr -> h' !! j = h !! j.
Proof using Type.
  intros Hne. subst h'. unfold copy, slice_from. simpl.
  now rewrite !list_lookup_alter_ne by congruence.
Qed.

Lemma copy_frame_length : length h' = length h.
Proof using Type. subst h'. unfold copy. now rewrite !length_alter. Qed.

Lemma copy_frame_bytes :
  bytes_of h' fr = hd ++ jp ++ take (len fr - (length hd + length jp)) (drop (length hd + length jp) arr).
Proof using Hoff Harr Hlen Hfit.
  unfold bytes_of. rewrite copy_frame_lookup, Hoff. simpl. rewrite drop_0.
  rewrite app_assoc, take_app, length_app.
  rewrite take_ge by (rewrite length_app; lia).
  now rewrite <- app_assoc.
Qed.

End copy_frame.

(** ** updateFrame *)

#[local] Opaque frameHeader.

Lemma updateFrame_eq jpeg elapsed w :
  updateFrame jpeg elapsed w =
  let s := stream w in
  let n := need s jpeg elapsed in
  let hd := list_byte_of_string (frameHeader s jpeg elapsed) in
  let fr := if len (frame s) <? n then Slice (length (heap w)) 0 (n * 2) else frame s in
  let h := if len (frame s) <? n then heap w ++ [replicate (n * 2) x00] else heap w in
  mkWorld (mkStream (start s) (m s) fr (FrameInterval s))
          (copy (slice_from fr (length hd)) jpeg (copy fr hd h)) (conns w).
Proof.
  unfold updateFrame, need, make. cbv zeta.
  rewrite length_list_byte_of_string.
  destruct (len (frame (stream w)) <? _); reflexivity.
Qed.

Lemma updateFrame_frame jpeg elapsed w :
  frame (stream (updateFrame jpeg elapsed w)) =
  if len (frame (stream w)) <? need (stream w) jpeg elapsed
  then Slice (length (heap w)) 0 (need (stream w) jpeg elapsed * 2)
  else frame (stream w).
Proof. rewrite updateFrame_eq. reflexivity. Qed.

Lemma updateFrame_start jpeg elapsed w :
  start (stream (updateFrame jpeg elapsed w)) = start (stream w).
Proof. rewrite updateFrame_eq. reflexivity. Qed.

Lemma updateFrame_m jpeg elapsed w :
  m (stream (updateFrame jpeg elapsed w)) = m (stream w).
Proof. rewrite updateFrame_eq. reflexivity. Qed.

Lemma updateFrame_conns jpeg elapsed w :
  conns (updateFrame jpeg elapsed w) = conns w.
Proof. rewrite updateFrame_eq. reflexivity. Qed.

Lemma updateFrame_heap_length jpeg elapsed w :
  length (heap (updateFrame jpeg elapsed w)) =
  if len (frame (stream w)) <? need (stream w) jpeg elapsed
  then S (length (heap w)) else length (heap w).
Proof.
  rewrite updateFrame_eq. cbv zeta. unfold heap at 1, copy.
  rewrite !length_alter.
  destruct (_ <? _); [rewrite length_app; simpl; lia | reflexivity].
Qed.

(** The frame after [updateFrame], its array, and the array it had before
    (a fresh one of zeros when the frame was too small). *)
Lemma updateFrame_array jpeg elapsed w :
  frame_ok w ->
  let w' := updateFrame jpeg elapsed w in
  let fr := frame (stream w') in
  let hd := list_byte_of_string (frameHeader (stream w) jpeg elapsed) in
  exists old,
    length old = len fr /\ off fr = 0 /\
    length hd + length jpeg <= len fr /\
    heap w' !! base fr = Some (hd ++ jpeg ++ drop (length hd + length jpeg) old).
Proof.
  intros [Hoff Hlk]. cbv zeta. rewrite updateFrame_frame, updateFrame_eq. cbv zeta.
  pose proof (length_list_byte_of_string (frameHeader (stream w) jpeg elapsed)) as Hhd.
  simpl heap. unfold need in *.
  destruct (Nat.ltb_spec (len (frame (stream w)))
              (length jpeg + String.length (frameHeader (stream w) jpeg elapsed))) as [Hlt|Hge].
  - eexists (replicate _ x00). split; [apply length_replicate|].
    split; [reflexivity|]. split; [simpl; lia|].
    apply copy_frame_lookup; simpl; try reflexivity.
    + now rewrite lookup_app_r, Nat.sub_diag by lia.
    + apply length_replicate.
    + lia.
  - destruct (heap w !! base (frame (stream w))) as [arr|] eqn:Harr; [|discriminate].
    injection Hlk as Hlen. exists arr. split; [exact Hlen|]. split; [exact Hoff|].
    split; [lia|]. apply copy_frame_lookup; auto; lia.
Qed.

Lemma updateFrame_frame_ok jpeg elapsed w :
  frame_ok w -> frame_ok (updateFrame jpeg elapsed w).
Proof.
  intros Hok. destruct (updateFrame_array jpeg elapsed w Hok) as (old & Hl & Hoff & Hfit & Hlk).
  split; [exact Hoff|]. rewrite Hlk. simpl. f_equal.
  rewrite !length_app, length_drop. lia.
Qed.


Lemma updateFrame_heap_other jpeg elapsed w j :
  j < length (heap w) ->
  j <> base (frame (stream (updateFrame jpeg elapsed w))) ->
  heap (updateFrame jpeg elapsed w) !! j = heap w !! j.
Proof.
  rewrite updateFrame_frame, updateFrame_eq. cbv zeta. simpl heap.
  intros Hj Hne. rewrite copy_frame_other by exact Hne.
  destruct (_ <? _); [now apply lookup_app_l | reflexivity].
Qed.

(** ** The fan-out loop *)

Lemma elem_of_range (reg : gmap nat bool) (c : nat) :
  c ∈ range reg <-> is_Some (reg !! c).
Proof.
  unfold range. rewrite list_elem_of_fmap. split.
  - intros ([c' v] & -> & Hin). apply elem_of_map_to_list in Hin. eauto.
  - intros [v Hv]. exists (c, v). split; [reflexivity|].
    now apply elem_of_map_to_list.
Qed.

(** Altering the entries listed in [ks], each once, alters exactly those. *)
Lemma foldl_alter_lookup (f : conn -> conn) (ks : list nat) :
  NoDup ks -> forall (cs : list conn) (i : nat),
  foldl (fun cs c => alter f c cs) cs ks !! i
  = if decide (i ∈ ks) then f <$> cs !! i else cs !! i.
Proof.
  induction 1 as [|k ks Hk Hnd IH]; intros cs i; simpl.
  - destruct (decide (i ∈ [])) as [Hin|_]; [inversion Hin | reflexivity].
  - rewrite IH. destruct (decide (i = k)) as [->|Hne].
    + rewrite decide_False by exact Hk.
      rewrite decide_True by constructor.
      apply list_lookup_alter_eq.
    + rewrite list_lookup_alter_ne by congruence.
      destruct (decide (i ∈ ks)) as [Hin|Hin].
      * rewrite decide_True by now constructor. reflexivity.
      * rewrite decide_False; [reflexivity|].
        intros Hin'. apply elem_of_cons in Hin' as [?|?]; contradiction.
Qed.

Lemma UpdateJPEG_nonempty jpeg now w :
  jpeg <> [] ->
  UpdateJPEG jpeg now w =
  let w1 := updateFrame jpeg (time.Since now (start (stream w))) w in
  mkWorld (stream w1) (heap w1)
    (foldl (fun cs c => alter (trySend (frame (stream w1))) c cs)
           (conns w1) (range (m (stream w1)))).
Proof. destruct jpeg; [congruence | reflexivity]. Qed.

Lemma UpdateJPEG_stream jpeg now w :
  jpeg <> [] ->
  stream (UpdateJPEG jpeg now w)
  = stream (updateFrame jpeg (time.Since now (start (stream w))) w).
Proof. intros H. now rewrite UpdateJPEG_nonempty. Qed.

Lemma UpdateJPEG_heap jpeg now w :
  jpeg <> [] ->
  heap (UpdateJPEG jpeg now w)
  = heap (updateFrame jpeg (time.Since now (start (stream w))) w).
Proof. intros H. now rewrite UpdateJPEG_nonempty. Qed.

(** Each registered channel gets one non-blocking send of the new frame;
    the other channels are not touched. *)
Lemma UpdateJPEG_conns jpeg now w i :
  jpeg <> [] ->
  conns (UpdateJPEG jpeg now w) !! i =
  if decide (is_Some (m (stream w) !! i))
  then trySend (frame (stream (UpdateJPEG jpeg now w))) <$> conns w !! i
  else conns w !! i.
Proof.
  intros H. rewrite UpdateJPEG_stream by exact H.
  rewrite UpdateJPEG_nonempty by exact H. cbv zeta. unfold conns at 1.
  rewrite foldl_alter_lookup by apply NoDup_fst_map_to_list.
  rewrite updateFrame_m, updateFrame_conns.
  destruct (decide (is_Some (m (stream w) !! i))) as [Hs|Hs].
  - rewrite decide_True by now apply elem_of_range. reflexivity.
  - rewrite decide_False; [reflexivity|]. now rewrite elem_of_range.
Qed.

(** On a channel without buffer the send succeeds exactly when the
    receiver is parked. *)
Lemma trySend_unbuffered v cn :
  ch_cap cn = 0 -> ch_buf cn = [] ->
  trySend v cn =
  match at_pc cn with
  | Receiving => Conn 0 [] (Writing v) (wire cn)
  | _ => cn
  end.
Proof.
  intros Hcap Hbuf. unfold trySend. rewrite Hcap, Hbuf. simpl.
  destruct (at_pc cn); reflexivity.
Qed.

(** ** The invariant of reachable worlds *)

Lemma Inv_NewStream : Inv NewStream.
Proof.
  split.
  - split; reflexivity.
  - intros i cn Hi. destruct i; discriminate.
Qed.

Lemma Inv_attach now w : Inv w -> Inv (ServeHTTP_attach now w).
Proof.
  intros [Hf Hc]. split; [exact Hf|].
  intros i cn. unfold ServeHTTP_attach. simpl. intros Hi.
  apply lookup_app_Some in Hi as [Hi|[_ Hi]]; [now apply Hc in Hi|].
  destruct (i - length (conns w)); [|destruct n; discriminate].
  injection Hi as <-. repeat split. discriminate.
Qed.

Lemma Inv_receive c w : Inv w -> Inv (ServeHTTP_receive c w).
Proof.
  intros HI. pose proof HI as [Hf Hc]. unfold ServeHTTP_receive.
  destruct (conns w !! c) as [cn|] eqn:Hcn; [|exact HI].
  destruct (at_pc cn) eqn:Hpc; try exact HI.
  split; [exact Hf|]. intros i cn'. simpl.
  destruct (Hc _ _ Hcn) as (Hcap & Hbuf & _).
  pose proof (lookup_lt_Some _ _ _ Hcn) as Hlt.
  destruct (decide (c = i)) as [<-|Hne];
    [rewrite list_lookup_insert_eq by exact Hlt
    |rewrite list_lookup_insert_ne by exact Hne; apply Hc].
  intros [= <-]. unfold recv. rewrite Hbuf. simpl. repeat split; [exact Hcap|discriminate].
Qed.

Lemma Inv_write c ok w : Inv w -> Inv (ServeHTTP_write c ok w).
Proof.
  intros HI. pose proof HI as [Hf Hc]. unfold ServeHTTP_write.
  destruct (conns w !! c) as [cn|] eqn:Hcn; [|exact HI].
  destruct (at_pc cn) eqn:Hpc; try exact HI.
  destruct (Hc _ _ Hcn) as (Hcap & Hbuf & _).
  pose proof (lookup_lt_Some _ _ _ Hcn) as Hlt.
  destruct ok; (split; [exact Hf|]); intros i cn'; simpl;
    (destruct (decide (c = i)) as [<-|Hne];
       [rewrite list_lookup_insert_eq by exact Hlt
       |rewrite list_lookup_insert_ne by exact Hne; apply Hc]);
    intros [= <-]; simpl; repeat split; auto; discriminate.
Qed.

Lemma Inv_UpdateJPEG jpeg now w : Inv w -> Inv (UpdateJPEG jpeg now w).
Proof.
  intros HI. destruct (decide (jpeg = [])) as [->|Hne]; [exact HI|].
  pose proof HI as [Hf Hc].
  pose proof (updateFrame_frame_ok jpeg (time.Since now (start (stream w))) w Hf) as Hf'.
  pose proof (updateFrame_heap_length jpeg (time.Since now (start (stream w))) w) as Hlen.
  split.
  - unfold frame_ok. rewrite UpdateJPEG_stream, UpdateJPEG_heap by exact Hne. exact Hf'.
  - intros i cn. rewrite UpdateJPEG_conns by exact Hne.
    rewrite UpdateJPEG_stream, UpdateJPEG_heap by exact Hne.
    assert (Hgrow : length (heap w)
                    <= length (heap (updateFrame jpeg (time.Since now (start (stream w))) w))).
    { rewrite Hlen. destruct (_ <? _); lia. }
    assert (Hold : forall cn0, conns w !! i = Some cn0 ->
              ch_cap cn0 = 0 /\ ch_buf cn0 = [] /\
              forall b, at_pc cn0 = Writing b ->
                base b < length (heap (updateFrame jpeg (time.Since now (start (stream w))) w))).
    { intros cn0 H0. destruct (Hc _ _ H0) as (? & ? & Hb). repeat split; auto.
      intros b Hw. specialize (Hb b Hw). lia. }
    destruct (decide (is_Some (m (stream w) !! i))) as [_|_]; [|apply Hold].
    destruct (conns w !! i) as [cn0|] eqn:H0; [|discriminate].
    simpl. intros [= <-]. destruct (Hold cn0 eq_refl) as (Hcap & Hbuf & Hb).
    rewrite trySend_unbuffered by assumption.
    destruct (at_pc cn0) eqn:Hpc; simpl;
      (split; [auto | split; [auto|] ]); intros b0 Hb0;
      try (apply Hb; congruence).
    injection Hb0 as <-. destruct Hf' as [_ Hlk].
    destruct (heap _ !! base _) eqn:E in Hlk; [|discriminate].
    now apply lookup_lt_Some in E.
Qed.

Lemma Inv_step w e : Inv w -> Inv (step w e).
Proof.
  destruct e; simpl;
    [apply Inv_attach | apply Inv_receive | apply Inv_write | apply Inv_UpdateJPEG].
Qed.

Lemma Inv_run evs : forall w, Inv w -> Inv (run evs w).
Proof.
  induction evs as [|e evs IH]; intros w HI; [exact HI|].
  apply IH, Inv_step, HI.
Qed.

Lemma run_snoc evs e w : run (evs ++ [e]) w = step (run evs w) e.
Proof. unfold run. apply foldl_snoc. Qed.

Lemma run_app evs evs' w : run (evs ++ evs') w = run evs' (run evs w).
Proof. unfold run. apply foldl_app. Qed.

(** ** Steps that leave the stream's fields alone *)

Lemma receive_stream c w : stream (ServeHTTP_receive c w) = stream w.
Proof.
  unfold ServeHTTP_receive. destruct (conns w !! c) as [cn|]; [|reflexivity].
  destruct (at_pc cn); reflexivity.
Qed.

Lemma receive_heap c w : heap (ServeHTTP_receive c w) = heap w.
Proof.
  unfold ServeHTTP_receive. destruct (conns w !! c) as [cn|]; [|reflexivity].
  destruct (at_pc cn); reflexivity.
Qed.

Lemma write_heap c ok w : heap (ServeHTTP_write c ok w) = heap w.
Proof.
  unfold ServeHTTP_write. destruct (conns w !! c) as [cn|]; [|reflexivity].
  destruct (at_pc cn); try reflexivity. destruct ok; reflexivity.
Qed.

Lemma write_start c ok w : start (stream (ServeHTTP_write c ok w)) = start (stream w).
Proof.
  unfold ServeHTTP_write. destruct (conns w !! c) as [cn|]; [|reflexivity].
  destruct (at_pc cn); try reflexivity. destruct ok; reflexivity.
Qed.

Lemma write_frame c ok w : frame (stream (ServeHTTP_write c ok w)) = frame (stream w).
Proof.
  unfold ServeHTTP_write. destruct (conns w !! c) as [cn|]; [|reflexivity].
  destruct (at_pc cn); try reflexivity. destruct ok; reflexivity.
Qed.

Lemma UpdateJPEG_start jpeg now w :
  start (stream (UpdateJPEG jpeg now w)) = start (stream w).
Proof.
  destruct (decide (jpeg = [])) as [->|Hne]; [reflexivity|].
  rewrite UpdateJPEG_stream by exact Hne. apply updateFrame_start.
Qed.

Lemma UpdateJPEG_frame jpeg now w :
  jpeg <> [] ->
  frame (stream (UpdateJPEG jpeg now w)) =
  let n := need (stream w) jpeg (time.Since now (start (stream w))) in
  if len (frame (stream w)) <? n
  then Slice (length (heap w)) 0 (n * 2) else frame (stream w).
Proof. intros Hne. rewrite UpdateJPEG_stream by exact Hne. apply updateFrame_frame. Qed.

Lemma step_frame_len w e :
  len (frame (stream w)) <= len (frame (stream (step w e))).
Proof.
  destruct e as [now|c|c ok|jpeg now]; simpl.
  - reflexivity.
  - now rewrite receive_stream.
  - now rewrite write_frame.
  - destruct (decide (jpeg = [])) as [->|Hne]; [reflexivity|].
    rewrite UpdateJPEG_frame by exact Hne. cbv zeta.
    destruct (Nat.ltb_spec (len (frame (stream w)))
                (need (stream w) jpeg (time.Since now (start (stream w))))); simpl; lia.
Qed.

Lemma run_frame_len evs : forall w,
  len (frame (stream w)) <= len (frame (stream (run evs w))).
Proof.
  induction evs as [|e evs IH]; intros w; [reflexivity|].
  etransitivity; [apply (step_frame_len w e) | apply IH].
Qed.

#[local] Transparent frameHeader.

(** * The claims *)

(** C9. The header is a function of the payload's length and of the elapsed
    duration: two payloads of the same length, at the same elapsed duration
    (and on whatever stream), get the same header. *)
Theorem frameHeader_by_length_and_elapsed (s1 s2 : Stream) (jpeg1 jpeg2 : list byte)
    (elapsed : time.Duration) :
  length jpeg1 = length jpeg2 ->
  frameHeader s1 jpeg1 elapsed = frameHeader s2 jpeg2 elapsed.
Proof. intros Hlen. unfold frameHeader. now rewrite Hlen. Qed.

Lemma frameHeader_by_length_and_elapsed_witness :
  length [x01; x02; x03] = length [xff; xfe; xfd] /\
  frameHeader (stream NewStream) [x01; x02; x03] 15535000000%Z
  = frameHeader (stream (ServeHTTP_attach 9%Z NewStream)) [xff; xfe; xfd] 15535000000%Z.
Proof.
  split; [reflexivity|].
  apply (frameHeader_by_length_and_elapsed _ _ [x01; x02; x03] [xff; xfe; xfd]).
  reflexivity.
Defined.

(** C5. Publishing an empty payload changes nothing: the world after the
    call is the world before it (frame, start time, registry, every channel
    and every goroutine), so every run continues as if the call had not been
    made. *)
Theorem UpdateJPEG_empty_noop (w : World) (now : time.Time) :
  UpdateJPEG [] now w = w /\
  forall evs, run (Publish [] now :: evs) w = run evs w.
Proof. split; [reflexivity | intros evs; reflexivity]. Qed.

(** C7. [delete(s.m, c)] is idempotent: on a registry without [c] it changes
    nothing, done twice it is as done once, and on a registry with [c] it
    removes [c] and leaves every other handle, and the other fields, as they
    were. *)
Theorem unsubscribe_idempotent (s : Stream) (c : nat) :
  (m s !! c = None -> ServeHTTP_detach c s = s) /\
  ServeHTTP_detach c (ServeHTTP_detach c s) = ServeHTTP_detach c s /\
  m (ServeHTTP_detach c s) !! c = None /\
  (forall c', c' <> c -> m (ServeHTTP_detach c s) !! c' = m s !! c') /\
  start (ServeHTTP_detach c s) = start s /\
  frame (ServeHTTP_detach c s) = frame s /\
  FrameInterval (ServeHTTP_detach c s) = FrameInterval s.
Proof.
  destruct s as [st reg fr fi]. unfold ServeHTTP_detach. simpl. repeat split.
  - intros Hnone. now rewrite delete_id.
  - now rewrite delete_delete_eq.
  - apply lookup_delete_eq.
  - intros c' Hne. apply lookup_delete_ne. congruence.
Qed.

Lemma unsubscribe_idempotent_witness :
  m (mkStream 0%Z {[ 0 := true; 2 := true ]} (Slice 0 0 87) 50000000%Z) !! 1 = None /\
  ServeHTTP_detach 1 (mkStream 0%Z {[ 0 := true; 2 := true ]} (Slice 0 0 87) 50000000%Z)
  = mkStream 0%Z {[ 0 := true; 2 := true ]} (Slice 0 0 87) 50000000%Z /\
  0 <> 2 /\
  m (ServeHTTP_detach 2 (mkStream 0%Z {[ 0 := true; 2 := true ]} (Slice 0 0 87) 50000000%Z)) !! 0
  = Some true.
Proof.
  split; [reflexivity|]. split.
  - apply (unsubscribe_idempotent
             (mkStream 0%Z {[ 0 := true; 2 := true ]} (Slice 0 0 87) 50000000%Z) 1).
    reflexivity.
  - split; [discriminate|].
    rewrite (proj1 (proj2 (proj2 (proj2 (unsubscribe_idempotent
               (mkStream 0%Z {[ 0 := true; 2 := true ]} (Slice 0 0 87) 50000000%Z) 2)))) 0)
      by discriminate.
    reflexivity.
Defined.

(** C6. A publish that builds a frame asks for [len(jpeg)+len(header)]
    bytes.  When the frame is shorter than that, a fresh array of twice
    that size becomes the frame; otherwise the frame stays the same slice
    (same array, same length) and nothing is allocated. *)
Theorem UpdateJPEG_grows_or_reuses (w : World) (jpeg : list byte) (now : time.Time) :
  jpeg <> [] ->
  let n := need (stream w) jpeg (time.Since now (start (stream w))) in
  let w' := UpdateJPEG jpeg now w in
  (len (frame (stream w)) < n ->
     2 * n <= len (frame (stream w')) /\
     base (frame (stream w')) = length (heap w) /\
     length (heap w') = S (length (heap w))) /\
  (n <= len (frame (stream w)) ->
     frame (stream w') = frame (stream w) /\
     length (heap w') = length (heap w)).
Proof.
  intros Hne. cbv zeta.
  rewrite UpdateJPEG_frame, UpdateJPEG_heap, updateFrame_heap_length by exact Hne.
  cbv zeta.
  destruct (Nat.ltb_spec (len (frame (stream w)))
              (need (stream w) jpeg (time.Since now (start (stream w))))) as [Hlt|Hge].
  - split; [intros _; simpl; repeat split; lia | lia].
  - split; [lia | intros _; split; reflexivity].
Qed.

Lemma UpdateJPEG_grows_or_reuses_witness :
  [x41; x42] <> [] /\
  len (frame (stream NewStream)) < need (stream NewStream) [x41; x42] 123456789012%Z /\
  2 * need (stream NewStream) [x41; x42] 123456789012%Z
    <= len (frame (stream (UpdateJPEG [x41; x42] 123456789012%Z NewStream))) /\
  need (stream NewStream) [x41; x42] 1%Z <= len (frame (stream NewStream)) /\
  frame (stream (UpdateJPEG [x41; x42] 1%Z NewStream)) = frame (stream NewStream).
Proof.
  assert (Hne : [x41; x42] <> []) by discriminate.
  split; [exact Hne|].
  assert (Hlt : len (frame (stream NewStream))
                < need (stream NewStream) [x41; x42] 123456789012%Z)
    by (vm_compute; lia).
  split; [exact Hlt|]. split.
  - apply (UpdateJPEG_grows_or_reuses NewStream [x41; x42] 123456789012%Z Hne). exact Hlt.
  - assert (Hge : need (stream NewStream) [x41; x42] 1%Z <= len (frame (stream NewStream)))
      by (vm_compute; lia).
    split; [exact Hge|].
    apply (UpdateJPEG_grows_or_reuses NewStream [x41; x42] 1%Z Hne). exact Hge.
Defined.

(** C10. Along every run from [NewStream] the length of the frame never
    decreases, whatever the next step is; and once a non-empty publish has
    been made, the frame stays at least as long as the
    [len(jpeg)+len(header)] that publish asked for, through everything that
    follows (in particular while it is the most recent one). *)
Theorem frame_length_never_decreases (evs : list event) :
  (forall e, len (frame (stream (run evs NewStream)))
             <= len (frame (stream (run (evs ++ [e]) NewStream)))) /\
  (forall jpeg now evs', jpeg <> [] ->
     need (stream (run evs NewStream)) jpeg
          (time.Since now (start (stream (run evs NewStream))))
     <= len (frame (stream (run (evs ++ Publish jpeg now :: evs') NewStream)))).
Proof.
  split.
  - intros e. rewrite run_snoc. apply step_frame_len.
  - intros jpeg now evs' Hne. rewrite run_app.
    set (w := run evs NewStream).
    change (run (Publish jpeg now :: evs') w) with (run evs' (UpdateJPEG jpeg now w)).
    etransitivity; [|apply run_frame_len].
    rewrite UpdateJPEG_frame by exact Hne. cbv zeta.
    destruct (Nat.ltb_spec (len (frame (stream w)))
                (need (stream w) jpeg (time.Since now (start (stream w))))); simpl; lia.
Qed.

Lemma frame_length_never_decreases_witness :
  [x41; x42] <> [] /\
  need (stream (run [Attach 5%Z] NewStream)) [x41; x42]
       (time.Since 123456789017%Z (start (stream (run [Attach 5%Z] NewStream))))
  <= len (frame (stream (run ([Attach 5%Z]
                               ++ Publish [x41; x42] 123456789017%Z
                               :: [Publish [x43] 123456789018%Z; Publish [] 7%Z])
                             NewStream))).
Proof.
  split; [discriminate|].
  apply (proj2 (frame_length_never_decreases [Attach 5%Z])). discriminate.
Defined.

(** C4 (as amended). [NewStream] leaves [start] at the zero time, and every
    attach sets it to the clock reading of that attach: after any run,
    [start] is the reading of the latest attach, if there was one. *)
Theorem start_is_latest_attach (evs : list event) :
  start (stream NewStream) = time.zeroTime /\
  start (stream (run evs NewStream)) = default time.zeroTime (last (attaches evs)).
Proof.
  split; [reflexivity|].
  induction evs as [|e evs IH] using rev_ind; [reflexivity|].
  rewrite run_snoc. unfold attaches in *. rewrite omap_app.
  destruct e as [now|c|c ok|jpeg now]; simpl.
  - now rewrite last_snoc.
  - now rewrite receive_stream, app_nil_r.
  - now rewrite write_start, app_nil_r.
  - now rewrite UpdateJPEG_start, app_nil_r.
Qed.

(** C4, the claim as stated fails: a second attach moves [start]. *)
Lemma start_moved_by_second_attach :
  start (stream (run [Attach 100%Z] NewStream)) = 100%Z /\
  start (stream (run [Attach 100%Z; Attach 200%Z] NewStream)) = 200%Z /\
  start (stream (run [Attach 100%Z; Attach 200%Z] NewStream))
  <> start (stream (run [Attach 100%Z] NewStream)).
Proof. repeat split. discriminate. Qed.

(** C3 (as amended). Every channel made by an attach is unbuffered: its
    capacity is zero and it never holds a pending frame.  A non-empty
    publish hands the new frame to a registered subscriber that is parked in
    its receive at that moment, and leaves every subscriber that is not
    (sleeping, writing, gone) exactly as it was: for it the frame is
    dropped.  The publish is one total step, it never waits. *)
Theorem delivery_channel_unbuffered (evs : list event) (i : nat) (cn : conn)
    (jpeg : list byte) (now : time.Time) :
  conns (run evs NewStream) !! i = Some cn ->
  jpeg <> [] ->
  ch_cap cn = 0 /\ ch_buf cn = [] /\
  (is_Some (m (stream (run evs NewStream)) !! i) -> at_pc cn = Receiving ->
     conns (UpdateJPEG jpeg now (run evs NewStream)) !! i
     = Some (Conn 0 [] (Writing (frame (stream (UpdateJPEG jpeg now (run evs NewStream)))))
                  (wire cn))) /\
  (at_pc cn <> Receiving ->
     conns (UpdateJPEG jpeg now (run evs NewStream)) !! i = Some cn).
Proof.
  intros Hcn Hne.
  destruct (inv_conns _ (Inv_run evs _ Inv_NewStream) _ _ Hcn) as (Hcap & Hbuf & _).
  split; [exact Hcap|]. split; [exact Hbuf|].
  rewrite UpdateJPEG_conns by exact Hne. rewrite Hcn. simpl.
  rewrite trySend_unbuffered by assumption. split.
  - intros Hreg Hpc. rewrite decide_True by exact Hreg. now rewrite Hpc.
  - intros Hpc. destruct (decide _); [|reflexivity].
    destruct (at_pc cn); congruence.
Qed.

Lemma delivery_channel_unbuffered_witness :
  conns (run [Attach 7%Z; Attach 8%Z; Wake 0] NewStream) !! 0 = Some (Conn 0 [] Receiving []) /\
  conns (run [Attach 7%Z; Attach 8%Z; Wake 0] NewStream) !! 1 = Some (Conn 0 [] Sleeping []) /\
  [x41] <> [] /\
  is_Some (m (stream (run [Attach 7%Z; Attach 8%Z; Wake 0] NewStream)) !! 0) /\
  Sleeping <> Receiving /\
  conns (UpdateJPEG [x41] 9%Z (run [Attach 7%Z; Attach 8%Z; Wake 0] NewStream)) !! 0
  = Some (Conn 0 [] (Writing (Slice 0 0 87)) []) /\
  conns (UpdateJPEG [x41] 9%Z (run [Attach 7%Z; Attach 8%Z; Wake 0] NewStream)) !! 1
  = Some (Conn 0 [] Sleeping []).
Proof.
  assert (H0 : conns (run [Attach 7%Z; Attach 8%Z; Wake 0] NewStream) !! 0
               = Some (Conn 0 [] Receiving [])) by reflexivity.
  assert (H1 : conns (run [Attach 7%Z; Attach 8%Z; Wake 0] NewStream) !! 1
               = Some (Conn 0 [] Sleeping [])) by reflexivity.
  assert (Hne : [x41] <> []) by discriminate.
  assert (Hreg : is_Some (m (stream (run [Attach 7%Z; Attach 8%Z; Wake 0] NewStream)) !! 0))
    by (exists true; reflexivity).
  assert (Hpc : Sleeping <> Receiving) by discriminate.
  split; [exact H0|]. split; [exact H1|]. split; [exact Hne|].
  split; [exact Hreg|]. split; [exact Hpc|]. split.
  - exact (proj1 (proj2 (proj2
      (delivery_channel_unbuffered _ 0 _ [x41] 9%Z H0 Hne))) Hreg eq_refl).
  - exact (proj2 (proj2 (proj2
      (delivery_channel_unbuffered _ 1 _ [x41] 9%Z H1 Hne))) Hpc).
Defined.

(** C3, the claim as stated fails: a publish made while a fresh
    subscriber's channel is empty deposits nothing (the channel has no
    room), and the receive that follows finds no frame and parks. *)
Lemma publish_to_sleeping_subscriber_is_lost :
  conns (run [Attach 7%Z] NewStream) !! 0 = Some (Conn 0 [] Sleeping []) /\
  conns (run [Attach 7%Z; Publish [x41] 9%Z] NewStream) !! 0
  = Some (Conn 0 [] Sleeping []) /\
  conns (run [Attach 7%Z; Publish [x41] 9%Z; Wake 0] NewStream) !! 0
  = Some (Conn 0 [] Receiving []).
Proof. repeat split. Qed.

(** C8 (as amended). The slice a subscriber holds is a window on the
    broadcaster's own array.  What it shows is left as it is by every step
    except a non-empty publish that reuses that very array in place: by
    attaches, receives, writes and unsubscribes, by empty publishes, by a
    publish that has to allocate, and by any publish once the broadcaster
    has moved on to another array.  A successful write by the subscriber
    then puts on the wire exactly the bytes the slice shows at that
    moment. *)
Theorem held_frame_kept_until_reuse (evs : list event) (i : nat) (cn : conn)
    (b : slice) (e : event) :
  conns (run evs NewStream) !! i = Some cn ->
  at_pc cn = Writing b ->
  (forall jpeg now, e = Publish jpeg now ->
     jpeg = [] \/
     base b <> base (frame (stream (run evs NewStream))) \/
     len (frame (stream (run evs NewStream)))
     < need (stream (run evs NewStream)) jpeg
            (time.Since now (start (stream (run evs NewStream))))) ->
  bytes_of (heap (step (run evs NewStream) e)) b = bytes_of (heap (run evs NewStream)) b /\
  wire <$> conns (ServeHTTP_write i true (run evs NewStream)) !! i
  = Some (wire cn ++ bytes_of (heap (run evs NewStream)) b).
Proof.
  set (w := run evs NewStream). intros Hcn Hpc Hsafe.
  assert (HI : Inv w) by apply Inv_run, Inv_NewStream.
  destruct (inv_conns _ HI _ _ Hcn) as (_ & _ & Halloc). specialize (Halloc b Hpc).
  split.
  - unfold bytes_of. destruct e as [now|c|c ok|jpeg now]; simpl.
    + reflexivity.
    + now rewrite receive_heap.
    + now rewrite write_heap.
    + destruct (decide (jpeg = [])) as [->|Hne]; [reflexivity|].
      rewrite UpdateJPEG_heap by exact Hne.
      rewrite updateFrame_heap_other; [reflexivity | exact Halloc |].
      rewrite updateFrame_frame.
      destruct (Hsafe jpeg now eq_refl) as [Hnil|[Hbase|Hsmall]]; [contradiction| |].
      * destruct (_ <? _); simpl; [lia | exact Hbase].
      * apply Nat.ltb_lt in Hsmall. rewrite Hsmall. simpl. lia.
  - unfold ServeHTTP_write. rewrite Hcn, Hpc. simpl.
    rewrite list_lookup_insert_eq by (now apply lookup_lt_Some in Hcn).
    reflexivity.
Qed.

Lemma held_frame_kept_until_reuse_witness :
  conns (run [Attach 7%Z; Wake 0; Publish [x41] 9%Z] NewStream) !! 0
  = Some (Conn 0 [] (Writing (Slice 0 0 87)) []) /\
  (len (frame (stream (run [Attach 7%Z; Wake 0; Publish [x41] 9%Z] NewStream)))
   < need (stream (run [Attach 7%Z; Wake 0; Publish [x41] 9%Z] NewStream)) [x42; x43; x44]
          (time.Since 123456789019%Z
             (start (stream (run [Attach 7%Z; Wake 0; Publish [x41] 9%Z] NewStream))))) /\
  bytes_of (heap (step (run [Attach 7%Z; Wake 0; Publish [x41] 9%Z] NewStream)
                       (Publish [x42; x43; x44] 123456789019%Z)))
           (Slice 0 0 87)
  = bytes_of (heap (run [Attach 7%Z; Wake 0; Publish [x41] 9%Z] NewStream)) (Slice 0 0 87).
Proof.
  assert (H0 : conns (run [Attach 7%Z; Wake 0; Publish [x41] 9%Z] NewStream) !! 0
               = Some (Conn 0 [] (Writing (Slice 0 0 87)) [])) by reflexivity.
  assert (Hsmall :
     len (frame (stream (run [Attach 7%Z; Wake 0; Publish [x41] 9%Z] NewStream)))
     < need (stream (run [Attach 7%Z; Wake 0; Publish [x41] 9%Z] NewStream)) [x42; x43; x44]
            (time.Since 123456789019%Z
               (start (stream (run [Attach 7%Z; Wake 0; Publish [x41] 9%Z] NewStream)))))
    by (vm_compute; lia).
  split; [exact H0|]. split; [exact Hsmall|].
  apply (held_frame_kept_until_reuse _ 0 _ (Slice 0 0 87)
           (Publish [x42; x43; x44] 123456789019%Z) H0 eq_refl).
  intros jpeg now [= <- <-]. right. right. exact Hsmall.
Defined.

(** C8, the claim as stated fails: the subscriber holds the frame of the
    first publish, a second publish that fits the same array is made before
    it writes, and what it writes is no longer what the first publish
    built. *)
Lemma held_frame_overwritten_by_next_publish :
  at_pc <$> conns (run [Attach 0%Z; Wake 0;
                        Publish (list_byte_of_string "test_frame") 15535000000%Z]
                       NewStream) !! 0
  = Some (Writing (Slice 1 0 202)) /\
  wire <$> conns (run [Attach 0%Z; Wake 0;
                       Publish (list_byte_of_string "test_frame") 15535000000%Z;
                       Publish (list_byte_of_string "TEST") 15635000000%Z;
                       Write 0 true]
                      NewStream) !! 0
  <> Some (bytes_of (heap (run [Attach 0%Z; Wake 0;
                                Publish (list_byte_of_string "test_frame") 15535000000%Z]
                               NewStream))
                    (Slice 1 0 202)).
Proof. split; [reflexivity|]. vm_compute. discriminate. Qed.

(** ** What a subscriber is sent *)


(** The text of every header: the three numbers are printed as [%d]
    prints them, between the fixed pieces of [headerf]. *)
Lemma frameHeader_text (s : Stream) (jpeg : list byte) (elapsed : time.Duration) :
  frameHeader s jpeg elapsed
  = (CRLF ++ "--MJPEGBOUNDARY" ++ CRLF ++
     "Content-Type: image/jpeg" ++ CRLF ++
     "Content-Length: " ++ fmt.formatInt (Z.of_nat (length jpeg)) ++ CRLF ++
     "X-Timestamp: " ++ fmt.formatInt (time.int64_of_float (time.Seconds elapsed)) ++
     "." ++ fmt.formatInt (Z.rem (time.Microseconds elapsed) 1000000) ++ CRLF ++
     CRLF)%string.
Proof. reflexivity. Qed.

(** C1, checked on the code: one subscriber parked in its receive, one
    publish of the ten bytes of "test_frame" 15.535s after the attach.  The
    frame had to grow, to twice the 101 bytes of header and payload, and the
    subscriber writes all 202 bytes: the header, the payload and 101 zero
    bytes after them. *)
Theorem subscriber_is_sent_trailing_bytes :
  wire <$> conns (run [Attach 0%Z; Wake 0;
                       Publish (list_byte_of_string "test_frame") 15535000000%Z;
                       Write 0 true]
                      NewStream) !! 0
  = Some (list_byte_of_string
            (frameHeader (stream NewStream) (list_byte_of_string "test_frame") 15535000000%Z)
          ++ list_byte_of_string "test_frame" ++ replicate 101 x00) /\
  wire <$> conns (run [Attach 0%Z; Wake 0;
                       Publish (list_byte_of_string "test_frame") 15535000000%Z;
                       Write 0 true]
                      NewStream) !! 0
  <> Some (list_byte_of_string
             (frameHeader (stream NewStream) (list_byte_of_string "test_frame") 15535000000%Z)
           ++ list_byte_of_string "test_frame").
Proof. split; [vm_compute; reflexivity | vm_compute; discriminate]. Qed.

(** C2, checked on the code: 15.005s after the start the microseconds are
    5000; the header carries them as [5000], not as [005000], and so reads
    as 15.5 seconds. *)
Theorem frameHeader_microseconds_not_padded :
  frameHeader (stream NewStream) (list_byte_of_string "test_frame") 15005000000%Z
  = (CRLF ++ "--MJPEGBOUNDARY" ++ CRLF ++ "Content-Type: image/jpeg" ++ CRLF ++
     "Content-Length: 10" ++ CRLF ++ "X-Timestamp: 15.5000" ++ CRLF ++ CRLF)%string /\
  frameHeader (stream NewStream) (list_byte_of_string "test_frame") 15005000000%Z
  <> (CRLF ++ "--MJPEGBOUNDARY" ++ CRLF ++ "Content-Type: image/jpeg" ++ CRLF ++
      "Content-Length: 10" ++ CRLF ++ "X-Timestamp: 15.005000" ++ CRLF ++ CRLF)%string.
Proof. split; [vm_compute; reflexivity | vm_compute; discriminate]. Qed.

(** The seconds go through float64.  From 2^24 seconds on, the last
    nanosecond of a second is rounded up to the next second. *)
Example frameHeader_seconds_rounded_up :
  time.int64_of_float (time.Seconds (2 ^ 24 * time.Second + 999999999)%Z) = (2 ^ 24 + 1)%Z /\
  Z.rem (time.Microseconds (2 ^ 24 * time.Second + 999999999)%Z) 1000000 = 999999%Z /\
  time.int64_of_float (time.Seconds (2 ^ 23 * time.Second + 999999999)%Z) = (2 ^ 23)%Z.
Proof. repeat split; vm_compute; reflexivity. Qed.

(** * Further properties of the code *)

(** ** The registry and the newest array along runs *)

Lemma trySend_is_exited v cn :
  is_exited (at_pc (trySend v cn)) = is_exited (at_pc cn).
Proof.
  unfold trySend. destruct (at_pc cn) eqn:Hpc; simpl; try reflexivity;
    destruct (_ <? _)%nat; simpl; now rewrite ?Hpc.
Qed.

Lemma trySend_wire v cn : wire (trySend v cn) = wire cn.
Proof.
  unfold trySend. destruct (at_pc cn); simpl; try reflexivity;
    destruct (_ <? _)%nat; reflexivity.
Qed.

Lemma UpdateJPEG_m jpeg now w : m (stream (UpdateJPEG jpeg now w)) = m (stream w).
Proof.
  destruct (decide (jpeg = [])) as [->|Hne]; [reflexivity|].
  rewrite UpdateJPEG_stream by exact Hne. apply updateFrame_m.
Qed.

Lemma UpdateJPEG_conns_any jpeg now w i :
  conns (UpdateJPEG jpeg now w) !! i = conns w !! i \/
  exists cn, conns w !! i = Some cn /\
    conns (UpdateJPEG jpeg now w) !! i
    = Some (trySend (frame (stream (UpdateJPEG jpeg now w))) cn).
Proof.
  destruct (decide (jpeg = [])) as [->|Hne]; [left; reflexivity|].
  rewrite UpdateJPEG_conns by exact Hne.
  destruct (decide _); [|left; reflexivity].
  destruct (conns w !! i) as [cn|]; [right; eauto | left; reflexivity].
Qed.

Lemma registry_ok_NewStream : registry_ok NewStream.
Proof. intros c. reflexivity. Qed.

Lemma registry_ok_attach now w : registry_ok w -> registry_ok (ServeHTTP_attach now w).
Proof.
  intros Hr c. unfold ServeHTTP_attach. simpl.
  destruct (decide (length (conns w) = c)) as [<-|Hne].
  - rewrite lookup_insert_eq, list_lookup_middle by reflexivity. reflexivity.
  - rewrite lookup_insert_ne by exact Hne. rewrite Hr.
    destruct (decide (c < length (conns w))) as [Hlt|Hge].
    + now rewrite lookup_app_l.
    + rewrite !(lookup_ge_None_2) by (rewrite ?length_app; simpl; lia). reflexivity.
Qed.

Lemma registry_ok_receive c w : registry_ok w -> registry_ok (ServeHTTP_receive c w).
Proof.
  intros Hr. unfold ServeHTTP_receive.
  destruct (conns w !! c) as [cn|] eqn:Hcn; [|exact Hr].
  destruct (at_pc cn) eqn:Hpc; try exact Hr.
  intros c'. simpl. rewrite Hr.
  destruct (decide (c = c')) as [<-|Hne].
  - rewrite list_lookup_insert_eq by (now apply lookup_lt_Some in Hcn).
    rewrite Hcn, Hpc. unfold recv. destruct (ch_buf cn); reflexivity.
  - now rewrite list_lookup_insert_ne.
Qed.

Lemma registry_ok_write c ok w : registry_ok w -> registry_ok (ServeHTTP_write c ok w).
Proof.
  intros Hr. unfold ServeHTTP_write.
  destruct (conns w !! c) as [cn|] eqn:Hcn; [|exact Hr].
  destruct (at_pc cn) eqn:Hpc; try exact Hr.
  pose proof (lookup_lt_Some _ _ _ Hcn) as Hlt.
  destruct ok; intros c'; simpl.
  - rewrite Hr. destruct (decide (c = c')) as [<-|Hne].
    + rewrite list_lookup_insert_eq, Hcn, Hpc by exact Hlt. reflexivity.
    + now rewrite list_lookup_insert_ne.
  - destruct (decide (c = c')) as [<-|Hne].
    + rewrite lookup_delete_eq, list_lookup_insert_eq by exact Hlt. reflexivity.
    + rewrite lookup_delete_ne, list_lookup_insert_ne by exact Hne. apply Hr.
Qed.

Lemma registry_ok_UpdateJPEG jpeg now w :
  registry_ok w -> registry_ok (UpdateJPEG jpeg now w).
Proof.
  intros Hr c. rewrite UpdateJPEG_m, Hr.
  destruct (UpdateJPEG_conns_any jpeg now w c) as [->|(cn & Hcn & ->)]; [reflexivity|].
  now rewrite Hcn, trySend_is_exited.
Qed.

Lemma registry_ok_run evs : forall w, registry_ok w -> registry_ok (run evs w).
Proof.
  induction evs as [|e evs IH]; intros w Hr; [exact Hr|].
  apply IH. destruct e; simpl;
    [apply registry_ok_attach | apply registry_ok_receive
    | apply registry_ok_write | apply registry_ok_UpdateJPEG]; exact Hr.
Qed.



Lemma conns_run_length evs : forall w,
  length (conns (run evs w)) = length (conns w) + length (attaches evs).
Proof.
  induction evs as [|e evs IH]; intros w; [simpl; lia|].
  change (run (e :: evs) w) with (run evs (step w e)). rewrite IH.
  destruct e as [now|c|c ok|jpeg now]; simpl.
  - rewrite length_app. simpl. lia.
  - unfold ServeHTTP_receive. destruct (conns w !! c) as [cn|]; [|reflexivity].
    destruct (at_pc cn); simpl; rewrite ?length_insert; reflexivity.
  - unfold ServeHTTP_write. destruct (conns w !! c) as [cn|]; [|reflexivity].
    destruct (at_pc cn); try reflexivity.
    destruct ok; simpl; rewrite length_insert; reflexivity.
  - destruct (decide (jpeg = [])) as [->|Hne]; [reflexivity|].
    f_equal. apply Nat.le_antisymm.
    + destruct (decide (length (conns (UpdateJPEG jpeg now w)) <= length (conns w)))
        as [|Hgt]; [assumption|].
      assert (Hs : is_Some (conns (UpdateJPEG jpeg now w) !! length (conns w)))
        by (apply lookup_lt_is_Some; lia).
      destruct Hs as [x Hx].
      destruct (UpdateJPEG_conns_any jpeg now w (length (conns w))) as [Heq|(cn & Hcn & _)].
      * rewrite Heq in Hx. apply lookup_lt_Some in Hx. lia.
      * apply lookup_lt_Some in Hcn. lia.
    + destruct (decide (length (conns w) <= length (conns (UpdateJPEG jpeg now w))))
        as [|Hgt]; [assumption|].
      assert (Hs : is_Some (conns w !! length (conns (UpdateJPEG jpeg now w))))
        by (apply lookup_lt_is_Some; lia).
      destruct Hs as [x Hx].
      destruct (UpdateJPEG_conns_any jpeg now w (length (conns (UpdateJPEG jpeg now w))))
        as [Heq|(cn & _ & Heq)].
      * rewrite Hx in Heq. apply lookup_lt_Some in Heq. lia.
      * apply lookup_lt_Some in Heq. lia.
Qed.

(** X1. After any run from [NewStream] the registry maps to [true] exactly
    the channels whose [ServeHTTP] loop is still running: a channel is
    registered from its attach until its write fails, and no other key is
    ever present. *)
Theorem registry_is_running_connections (evs : list event) (c : nat) :
  m (stream (run evs NewStream)) !! c =
  match conns (run evs NewStream) !! c with
  | Some cn => if is_exited (at_pc cn) then None else Some true
  | None => None
  end.
Proof. apply registry_ok_run, registry_ok_NewStream. Qed.

(** X2. Channels are numbered in the order of the attaches and never
    reused: after a run there are as many as attaches were made, the next
    attach gets a key the registry does not hold yet, adds exactly that key
    (the registry grows by one), and leaves every other registration, the
    frame and the memory as they were. *)
Theorem attach_registers_fresh_channel (evs : list event) (now : time.Time) :
  length (conns (run evs NewStream)) = length (attaches evs) /\
  m (stream (run evs NewStream)) !! length (attaches evs) = None /\
  m (stream (ServeHTTP_attach now (run evs NewStream))) !! length (attaches evs) = Some true /\
  size (m (stream (ServeHTTP_attach now (run evs NewStream))))
  = S (size (m (stream (run evs NewStream)))) /\
  (forall c, c <> length (attaches evs) ->
     m (stream (ServeHTTP_attach now (run evs NewStream))) !! c
     = m (stream (run evs NewStream)) !! c) /\
  frame (stream (ServeHTTP_attach now (run evs NewStream))) = frame (stream (run evs NewStream)) /\
  heap (ServeHTTP_attach now (run evs NewStream)) = heap (run evs NewStream).
Proof.
  pose proof (conns_run_length evs NewStream) as Hlen. simpl in Hlen.
  assert (Hnone : m (stream (run evs NewStream)) !! length (attaches evs) = None).
  { rewrite (registry_ok_run evs NewStream registry_ok_NewStream).
    rewrite lookup_ge_None_2 by lia. reflexivity. }
  split; [exact Hlen|]. split; [exact Hnone|].
  unfold ServeHTTP_attach. simpl. rewrite Hlen.
  split; [apply lookup_insert_eq|].
  split; [now apply map_size_insert_None|].
  split; [|split; reflexivity].
  intros c Hc. apply lookup_insert_ne. congruence.
Qed.

Lemma attach_registers_fresh_channel_witness :
  2 <> length (attaches [Attach 7%Z; Publish [x41] 9%Z; Attach 11%Z; Wake 0; Attach 12%Z]) /\
  m (stream (ServeHTTP_attach 13%Z
               (run [Attach 7%Z; Publish [x41] 9%Z; Attach 11%Z; Wake 0; Attach 12%Z] NewStream))) !! 2
  = m (stream (run [Attach 7%Z; Publish [x41] 9%Z; Attach 11%Z; Wake 0; Attach 12%Z] NewStream)) !! 2.
Proof.
  split; [discriminate|].
  apply (attach_registers_fresh_channel
           [Attach 7%Z; Publish [x41] 9%Z; Attach 11%Z; Wake 0; Attach 12%Z] 13%Z).
  discriminate.
Defined.

(** X3. A receive never returns at once: whenever a sleeping subscriber of
    a run from [NewStream] reaches [b := <-c] its channel is empty, so it
    parks; the only frames it can get are those published while it is
    parked. *)
Theorem receive_always_parks (evs : list event) (c : nat) (cn : conn) :
  conns (run evs NewStream) !! c = Some cn ->
  at_pc cn = Sleeping ->
  conns (ServeHTTP_receive c (run evs NewStream)) !! c
  = Some (Conn 0 [] Receiving (wire cn)).
Proof.
  intros Hcn Hpc.
  destruct (inv_conns _ (Inv_run evs _ Inv_NewStream) _ _ Hcn) as (Hcap & Hbuf & _).
  unfold ServeHTTP_receive. rewrite Hcn, Hpc. simpl.
  rewrite list_lookup_insert_eq by (now apply lookup_lt_Some in Hcn).
  unfold recv. now rewrite Hbuf, Hcap.
Qed.

Lemma receive_always_parks_witness :
  conns (run [Attach 7%Z; Publish [x41] 9%Z] NewStream) !! 0 = Some (Conn 0 [] Sleeping []) /\
  at_pc (Conn 0 [] Sleeping []) = Sleeping /\
  conns (ServeHTTP_receive 0 (run [Attach 7%Z; Publish [x41] 9%Z] NewStream)) !! 0
  = Some (Conn 0 [] Receiving []).
Proof.
  assert (H0 : conns (run [Attach 7%Z; Publish [x41] 9%Z] NewStream) !! 0
               = Some (Conn 0 [] Sleeping [])) by reflexivity.
  split; [exact H0|]. split; [reflexivity|].
  exact (receive_always_parks [Attach 7%Z; Publish [x41] 9%Z] 0 _ H0 eq_refl).
Defined.

(** ** What a publish builds and delivers *)

#[local] Opaque frameHeader.

(** The array of the frame after [updateFrame], with the bytes behind the
    payload spelled out: zeros in a fresh array, the old bytes in a reused
    one. *)
Lemma updateFrame_bytes_exact jpeg elapsed w :
  frame_ok w ->
  let n := need (stream w) jpeg elapsed in
  let w' := updateFrame jpeg elapsed w in
  bytes_of (heap w') (frame (stream w'))
  = list_byte_of_string (frameHeader (stream w) jpeg elapsed) ++ jpeg ++
    (if len (frame (stream w)) <? n then replicate n x00
     else drop n (bytes_of (heap w) (frame (stream w)))).
Proof.
  intros [Hoff Hlk]. cbv zeta. rewrite updateFrame_frame, updateFrame_eq. cbv zeta.
  pose proof (length_list_byte_of_string (frameHeader (stream w) jpeg elapsed)) as Hhd.
  unfold heap at 1. unfold need in *.
  set (hd := list_byte_of_string (frameHeader (stream w) jpeg elapsed)) in *.
  destruct (Nat.ltb_spec (len (frame (stream w)))
              (length jpeg + String.length (frameHeader (stream w) jpeg elapsed))) as [Hlt|Hge].
  - erewrite copy_frame_bytes; [| reflexivity | | apply length_replicate | simpl; lia].
    2:{ simpl. now rewrite lookup_app_r, Nat.sub_diag by lia. }
    simpl len. rewrite drop_replicate, take_replicate. do 3 f_equal. lia.
  - destruct (heap w !! base (frame (stream w))) as [arr|] eqn:Harr; [|discriminate].
    injection Hlk as Hlen.
    erewrite copy_frame_bytes; [| exact Hoff | exact Harr | exact Hlen | lia].
    unfold bytes_of. rewrite Harr, Hoff. simpl. rewrite drop_0.
    rewrite (take_ge arr) by lia.
    rewrite take_ge by (rewrite length_drop; lia).
    do 3 f_equal. lia.
Qed.

#[local] Transparent frameHeader.


(** X4. What the frame holds after a non-empty publish, byte for byte: the
    header, the payload, and behind them either [len(jpeg)+len(header)]
    zero bytes, when the frame had to grow, or the bytes the frame already
    had at those positions, when it was reused. *)
Theorem UpdateJPEG_frame_bytes (evs : list event) (jpeg : list byte) (now : time.Time) :
  jpeg <> [] ->
  bytes_of (heap (UpdateJPEG jpeg now (run evs NewStream)))
           (frame (stream (UpdateJPEG jpeg now (run evs NewStream))))
  = list_byte_of_string
      (frameHeader (stream (run evs NewStream)) jpeg
         (time.Since now (start (stream (run evs NewStream)))))
    ++ jpeg ++
    (if len (frame (stream (run evs NewStream)))
        <? need (stream (run evs NewStream)) jpeg
             (time.Since now (start (stream (run evs NewStream))))
     then replicate (need (stream (run evs NewStream)) jpeg
                       (time.Since now (start (stream (run evs NewStream))))) x00
     else drop (need (stream (run evs NewStream)) jpeg
                  (time.Since now (start (stream (run evs NewStream)))))
               (bytes_of (heap (run evs NewStream)) (frame (stream (run evs NewStream))))).
Proof.
  intros Hne. rewrite UpdateJPEG_heap, UpdateJPEG_stream by exact Hne.
  apply updateFrame_bytes_exact, inv_frame, Inv_run, Inv_NewStream.
Qed.

Lemma UpdateJPEG_frame_bytes_witness :
  [x41; x42] <> [] /\
  bytes_of (heap (UpdateJPEG [x41; x42] 123456789012%Z (run [Attach 0%Z] NewStream)))
           (frame (stream (UpdateJPEG [x41; x42] 123456789012%Z (run [Attach 0%Z] NewStream))))
  = list_byte_of_string
      (frameHeader (stream (run [Attach 0%Z] NewStream)) [x41; x42] 123456789012%Z)
    ++ [x41; x42] ++ replicate 93 x00.
Proof.
  split; [discriminate|].
  apply (UpdateJPEG_frame_bytes [Attach 0%Z] [x41; x42] 123456789012%Z). discriminate.
Defined.



(** X6. [updateFrame] never cuts anything short and its slice expression
    is always in range, whatever the frame was before: after the size check
    the frame has room for the header and the payload, so
    [s.frame[len(header):]] does not panic and each of the two [copy] calls
    copies its whole source. *)
Theorem updateFrame_copies_in_full (jpeg : list byte) (elapsed : time.Duration) (w : World) :
  String.length (frameHeader (stream w) jpeg elapsed)
  <= len (frame (stream (updateFrame jpeg elapsed w))) /\
  Nat.min (len (frame (stream (updateFrame jpeg elapsed w))))
          (length (list_byte_of_string (frameHeader (stream w) jpeg elapsed)))
  = length (list_byte_of_string (frameHeader (stream w) jpeg elapsed)) /\
  Nat.min (len (slice_from (frame (stream (updateFrame jpeg elapsed w)))
                           (String.length (frameHeader (stream w) jpeg elapsed))))
          (length jpeg)
  = length jpeg.
Proof.
  rewrite updateFrame_frame, length_list_byte_of_string. unfold need.
  generalize (String.length (frameHeader (stream w) jpeg elapsed)). intros k.
  destruct (Nat.ltb_spec (len (frame (stream w))) (length jpeg + k)); simpl; lia.
Qed.

(** ** Connections along runs *)




Lemma step_exited_frozen w e i cn :
  registry_ok w -> conns w !! i = Some cn -> at_pc cn = Exited ->
  conns (step w e) !! i = Some cn.
Proof.
  intros Hr Hcn Hpc. pose proof (lookup_lt_Some _ _ _ Hcn) as Hlt.
  destruct e as [now|c|c ok|jpeg now]; simpl.
  - now rewrite lookup_app_l.
  - unfold ServeHTTP_receive. destruct (conns w !! c) as [cn0|] eqn:H0; [|exact Hcn].
    destruct (at_pc cn0) eqn:Hp0; try exact Hcn. simpl.
    rewrite list_lookup_insert_ne; [exact Hcn|]. intros ->. congruence.
  - unfold ServeHTTP_write. destruct (conns w !! c) as [cn0|] eqn:H0; [|exact Hcn].
    destruct (at_pc cn0) eqn:Hp0; try exact Hcn.
    assert (c <> i) by (intros ->; congruence).
    destruct ok; simpl; now rewrite list_lookup_insert_ne.
  - destruct (decide (jpeg = [])) as [->|Hne]; [exact Hcn|].
    rewrite UpdateJPEG_conns by exact Hne.
    rewrite decide_False; [exact Hcn|].
    rewrite (Hr i), Hcn, Hpc. simpl. intros [x Hx]. discriminate.
Qed.

(** X8. Once the write of a connection has failed the connection is out
    for good: whatever happens afterwards (publishes, other attaches, stray
    steps on its own key) it is never handed a frame again and never sends
    another byte. *)
Theorem exited_connection_is_frozen (evs evs' : list event) (i : nat) (cn : conn) :
  conns (run evs NewStream) !! i = Some cn ->
  at_pc cn = Exited ->
  conns (run evs' (run evs NewStream)) !! i = Some cn.
Proof.
  pose proof (registry_ok_run evs _ registry_ok_NewStream) as Hr.
  revert Hr. generalize (run evs NewStream). clear evs.
  induction evs' as [|e evs' IH]; intros w Hr Hcn Hpc; [exact Hcn|].
  change (run (e :: evs') w) with (run evs' (step w e)).
  apply IH; [|now apply step_exited_frozen|exact Hpc].
  apply (registry_ok_run [e] w Hr).
Qed.

Lemma exited_connection_is_frozen_witness :
  conns (run [Attach 0%Z; Wake 0; Publish [x41] 5%Z; Write 0 false] NewStream) !! 0
  = Some (Conn 0 [] Exited []) /\
  at_pc (Conn 0 [] Exited []) = Exited /\
  conns (run [Publish [x42] 6%Z; Wake 0; Write 0 true; Attach 7%Z; Publish [x43] 8%Z]
             (run [Attach 0%Z; Wake 0; Publish [x41] 5%Z; Write 0 false] NewStream)) !! 0
  = Some (Conn 0 [] Exited []).
Proof.
  assert (H0 : conns (run [Attach 0%Z; Wake 0; Publish [x41] 5%Z; Write 0 false] NewStream) !! 0
               = Some (Conn 0 [] Exited [])) by reflexivity.
  split; [exact H0|]. split; [reflexivity|].
  exact (exited_connection_is_frozen _
           [Publish [x42] 6%Z; Wake 0; Write 0 true; Attach 7%Z; Publish [x43] 8%Z]
           0 _ H0 eq_refl).
Defined.

(** ** Memory along runs *)




Lemma step_frame_len_upper w e :
  len (frame (stream (step w e)))
  <= Nat.max (len (frame (stream w))) (2 * peak_need [e] w).
Proof.
  destruct e as [now|c|c ok|jpeg now]; cbn [step peak_need].
  - simpl. lia.
  - rewrite receive_stream. lia.
  - rewrite write_frame. lia.
  - destruct jpeg as [|x jpeg]; [change (UpdateJPEG [] now w) with w; lia|].
    rewrite UpdateJPEG_frame by discriminate. cbv zeta. cbn [length Nat.eqb].
    destruct (_ <? _); cbn [len]; lia.
Qed.

Lemma run_frame_len_upper evs : forall w,
  len (frame (stream (run evs w)))
  <= Nat.max (len (frame (stream w))) (2 * peak_need evs w).
Proof.
  induction evs as [|e evs IH]; intros w; [simpl; lia|].
  change (run (e :: evs) w) with (run evs (step w e)).
  pose proof (IH (step w e)) as H1. pose proof (step_frame_len_upper w e) as H2.
  cbn [peak_need] in *. lia.
Qed.

Lemma run_frame_len_lower evs : forall w,
  peak_need evs w <= len (frame (stream (run evs w))).
Proof.
  induction evs as [|e evs IH]; intros w; [simpl; lia|].
  change (run (e :: evs) w) with (run evs (step w e)).
  pose proof (IH (step w e)) as H1.
  pose proof (run_frame_len evs (step w e)) as H2.
  cbn [peak_need]. apply Nat.max_lub; [|exact H1].
  etransitivity; [|exact H2].
  destruct e as [now|c|c ok|jpeg now]; try lia.
  destruct jpeg as [|x jpeg]; [simpl; lia|]. cbn [length Nat.eqb step].
  rewrite UpdateJPEG_frame by discriminate. cbv zeta.
  destruct (Nat.ltb_spec (len (frame (stream w)))
              (need (stream w) (x :: jpeg) (time.Since now (start (stream w)))));
    cbn [len]; lia.
Qed.

(** X10. The frame is never longer than the code's growth rule allows:
    after any run from [NewStream] its length lies between the largest
    [len(jpeg)+len(header)] any non-empty publish of the run asked for and
    twice that (or the initial 87 bytes, [len(headerf)], while that is
    more). *)
Theorem frame_length_bounds (evs : list event) :
  peak_need evs NewStream <= len (frame (stream (run evs NewStream))) /\
  len (frame (stream (run evs NewStream)))
  <= Nat.max (String.length headerf) (2 * peak_need evs NewStream).
Proof.
  split; [apply run_frame_len_lower | apply (run_frame_len_upper evs NewStream)].
Qed.

(** ** The header as an encoding *)

Lemma string_length_app (a b : string) :
  String.length (a ++ b) = String.length a + String.length b.
Proof. induction a as [|c a IH]; simpl; [reflexivity | now rewrite IH]. Qed.

Lemma string_app_inv_head (a b c : string) : (a ++ b = a ++ c)%string -> b = c.
Proof. induction a as [|x a IH]; simpl; [auto | intros [= H]; auto]. Qed.

(** Two texts that agree, each made of a run of characters with [P] and
    then a character without it, agree on the run and on what follows. *)
Lemma string_app_split (P : ascii -> Prop) (s1 s2 : string) :
  Forall P (list_ascii_of_string s1) -> Forall P (list_ascii_of_string s2) ->
  forall c1 c2 t1 t2, ~ P c1 -> ~ P c2 ->
  (s1 ++ String c1 t1 = s2 ++ String c2 t2)%string ->
  s1 = s2 /\ String c1 t1 = String c2 t2.
Proof.
  revert s2. induction s1 as [|a s1 IH]; intros [|b s2] H1 H2 c1 c2 t1 t2 Hc1 Hc2; simpl.
  - auto.
  - intros [= -> _]. inversion H2; subst. contradiction.
  - intros [= <- _]. inversion H1; subst. contradiction.
  - intros [= -> Heq]. inversion H1; subst. inversion H2; subst.
    destruct (IH s2 ltac:(assumption) ltac:(assumption) _ _ _ _ Hc1 Hc2 Heq) as [-> ?].
    auto.
Qed.

Lemma formatInt_chars (n : Z) : Forall field_char (list_ascii_of_string (fmt.formatInt n)).
Proof.
  assert (Hu : forall d, Forall field_char (list_ascii_of_string (NilEmpty.string_of_uint d))).
  { induction d; simpl; constructor; auto; split; discriminate. }
  assert (Hz : forall d, Forall field_char (list_ascii_of_string (NilZero.string_of_uint d))).
  { intros d. destruct d; try apply Hu.
    simpl. constructor; [split; discriminate | constructor]. }
  unfold fmt.formatInt, NilZero.string_of_int.
  destruct (Z.to_int n); [apply Hz|].
  simpl. constructor; [split; discriminate | apply Hz].
Qed.

(** Reading back what [%d] printed gives the number. *)
Lemma formatInt_parse (n : Z) :
  Z.of_int <$> NilZero.int_of_string (fmt.formatInt n) = Some n.
Proof.
  unfold fmt.formatInt. rewrite NilZero.isi.
  - simpl. f_equal. apply DecimalZ.of_to.
  - destruct n; simpl; try discriminate.
    intros [= H]. now apply DecimalPos.Unsigned.to_uint_nonnil in H.
  - destruct n; simpl; try discriminate.
    intros [= H]. now apply DecimalPos.Unsigned.to_uint_nonnil in H.
Qed.

Lemma formatInt_inj (a b : Z) : fmt.formatInt a = fmt.formatInt b -> a = b.
Proof.
  intros H. pose proof (formatInt_parse a) as Ha. rewrite H, formatInt_parse in Ha.
  congruence.
Qed.

Lemma formatInt_length (n : Z) : 1 <= String.length (fmt.formatInt n).
Proof.
  assert (Hz : forall d, 1 <= String.length (NilZero.string_of_uint d)).
  { intros d. destruct d; simpl; lia. }
  unfold fmt.formatInt, NilZero.string_of_int.
  destruct (Z.to_int n); [apply Hz | simpl; lia].
Qed.

(** X11. The header is a faithful encoding of its three numbers: two
    headers are equal only if they were made for payloads of the same
    length, with the same seconds and the same microseconds.  Together with
    C9: the header determines, and is determined by, the payload length and
    the two timestamp fields. *)
Theorem frameHeader_determines_fields (s1 s2 : Stream) (jpeg1 jpeg2 : list byte)
    (elapsed1 elapsed2 : time.Duration) :
  frameHeader s1 jpeg1 elapsed1 = frameHeader s2 jpeg2 elapsed2 ->
  length jpeg1 = length jpeg2 /\
  time.int64_of_float (time.Seconds elapsed1) = time.int64_of_float (time.Seconds elapsed2) /\
  Z.rem (time.Microseconds elapsed1) 1000000 = Z.rem (time.Microseconds elapsed2) 1000000.
Proof.
  rewrite !frameHeader_text. intros H.
  repeat (apply string_app_inv_head in H).
  unfold CRLF in H. cbn [String.append] in H.
  apply string_app_split with (P := field_char) in H;
    [ | apply formatInt_chars | apply formatInt_chars
      | intros [? _]; congruence | intros [? _]; congruence ].
  destruct H as [HL H]. injection H as H.
  change ("X-Timestamp: " ++ ?x)%string with ("X-Timestamp: " ++ x)%string in H.
  repeat (injection H as H).
  apply string_app_split with (P := field_char) in H;
    [ | apply formatInt_chars | apply formatInt_chars
      | intros [_ ?]; congruence | intros [_ ?]; congruence ].
  destruct H as [HS H]. injection H as H.
  apply string_app_split with (P := field_char) in H;
    [ | apply formatInt_chars | apply formatInt_chars
      | intros [? _]; congruence | intros [? _]; congruence ].
  destruct H as [HU _].
  apply formatInt_inj in HL, HS, HU. repeat split; [lia | exact HS | exact HU].
Qed.

Lemma frameHeader_determines_fields_witness :
  frameHeader (stream NewStream) [x01; x02] 15005000000%Z
  = frameHeader (stream NewStream) [xff; xfe] 15005000999%Z /\
  length [x01; x02] = length [xff; xfe] /\
  Z.rem (time.Microseconds 15005000000%Z) 1000000
  = Z.rem (time.Microseconds 15005000999%Z) 1000000.
Proof.
  assert (H : frameHeader (stream NewStream) [x01; x02] 15005000000%Z
              = frameHeader (stream NewStream) [xff; xfe] 15005000999%Z)
    by (vm_compute; reflexivity).
  split; [exact H|].
  destruct (frameHeader_determines_fields _ _ _ _ _ _ H) as (HL & _ & HU).
  split; [exact HL | exact HU].
Defined.

(** X12. A header is never shorter than 84 bytes: the 81 fixed bytes of
    [headerf] and at least one character for each of its three numbers.  So
    a non-empty publish leaves a frame of more than [len(jpeg)+83] bytes,
    and the first [len(jpeg)+len(header)] of them are what it built. *)
Theorem frameHeader_length (s : Stream) (jpeg : list byte) (elapsed : time.Duration)
    (w : World) (now : time.Time) :
  String.length (frameHeader s jpeg elapsed)
  = 81 + String.length (fmt.formatInt (Z.of_nat (length jpeg)))
       + String.length (fmt.formatInt (time.int64_of_float (time.Seconds elapsed)))
       + String.length (fmt.formatInt (Z.rem (time.Microseconds elapsed) 1000000)) /\
  84 <= String.length (frameHeader s jpeg elapsed) /\
  (jpeg <> [] -> length jpeg + 84 <= len (frame (stream (UpdateJPEG jpeg now w)))).
Proof.
  assert (Hlen : forall s0 e0,
    String.length (frameHeader s0 jpeg e0)
    = 81 + String.length (fmt.formatInt (Z.of_nat (length jpeg)))
         + String.length (fmt.formatInt (time.int64_of_float (time.Seconds e0)))
         + String.length (fmt.formatInt (Z.rem (time.Microseconds e0) 1000000))).
  { intros s0 e0. rewrite frameHeader_text. rewrite !string_length_app.
    change (String.length CRLF) with 2. cbn [String.length]. lia. }
  assert (H84 : forall s0 e0, 84 <= String.length (frameHeader s0 jpeg e0)).
  { intros s0 e0. rewrite Hlen.
    pose proof (formatInt_length (Z.of_nat (length jpeg))).
    pose proof (formatInt_length (time.int64_of_float (time.Seconds e0))).
    pose proof (formatInt_length (Z.rem (time.Microseconds e0) 1000000)). lia. }
  split; [apply Hlen|]. split; [apply H84|].
  intros Hne. rewrite UpdateJPEG_frame by exact Hne. cbv zeta. unfold need.
  pose proof (H84 (stream w) (time.Since now (start (stream w)))) as Hh.
  revert Hh. generalize (String.length (frameHeader (stream w) jpeg
                                          (time.Since now (start (stream w))))).
  intros k Hk. destruct (Nat.ltb_spec (len (frame (stream w))) (length jpeg + k));
    cbn [len]; lia.
Qed.

Lemma frameHeader_length_witness :
  [x41] <> [] /\
  length [x41] + 84 <= len (frame (stream (UpdateJPEG [x41] 9%Z (ServeHTTP_attach 8%Z NewStream)))).
Proof.
  split; [discriminate|].
  apply (frameHeader_length (stream NewStream) [x41] 0%Z (ServeHTTP_attach 8%Z NewStream) 9%Z).
  discriminate.
Defined.

(** X13. The elapsed time a publish measures always fits an int64, and
    when the clock has not gone back behind [start] it is not negative; for
    such a duration the microseconds field of the header is a number from 0
    to 999999 (in general its absolute value is below a million). *)
Theorem elapsed_and_microseconds_in_range (now t : time.Time) :
  (time.minDuration <= time.Since now t <= time.maxDuration)%Z /\
  (-1000000 < Z.rem (time.Microseconds (time.Since now t)) 1000000 < 1000000)%Z /\
  ((t <= now)%Z ->
     (0 <= time.Since now t)%Z /\
     (0 <= Z.rem (time.Microseconds (time.Since now t)) 1000000 < 1000000)%Z) /\
  ((time.minDuration <= now - t <= time.maxDuration)%Z -> time.Since now t = (now - t)%Z).
Proof.
  assert (Hrange : (time.minDuration <= time.Since now t <= time.maxDuration)%Z).
  { unfold time.Since, time.Sub, time.minDuration, time.maxDuration. cbv zeta.
    destruct (Z.ltb_spec (now - t) (- 2 ^ 63)); [lia|].
    destruct (Z.ltb_spec (2 ^ 63 - 1) (now - t)); lia. }
  split; [exact Hrange|]. split; [|split].
  - pose proof (Z.rem_bound_abs (time.Microseconds (time.Since now t)) 1000000 ltac:(lia)).
    lia.
  - intros Hle.
    assert (Hpos : (0 <= time.Since now t)%Z).
    { unfold time.Since, time.Sub, time.minDuration, time.maxDuration. cbv zeta.
      destruct (Z.ltb_spec (now - t) (- 2 ^ 63)); [lia|].
      destruct (Z.ltb_spec (2 ^ 63 - 1) (now - t)); lia. }
    split; [exact Hpos|]. apply Z.rem_bound_pos; [|lia].
    unfold time.Microseconds. apply Z.quot_pos; lia.
  - unfold time.Since, time.Sub, time.minDuration, time.maxDuration. cbv zeta. intros H.
    destruct (Z.ltb_spec (now - t) (- 2 ^ 63)); [lia|].
    destruct (Z.ltb_spec (2 ^ 63 - 1) (now - t)); lia.
Qed.

Lemma elapsed_and_microseconds_in_range_witness :
  (1000 <= 15005001000)%Z /\
  (0 <= time.Since 15005001000%Z 1000%Z)%Z /\
  (0 <= Z.rem (time.Microseconds (time.Since 15005001000%Z 1000%Z)) 1000000 < 1000000)%Z /\
  (time.minDuration <= 15005001000 - 1000 <= time.maxDuration)%Z /\
  time.Since 15005001000%Z 1000%Z = (15005001000 - 1000)%Z.
Proof.
  assert (H1 : (1000 <= 15005001000)%Z) by lia.
  assert (H2 : (time.minDuration <= 15005001000 - 1000 <= time.maxDuration)%Z)
    by (unfold time.minDuration, time.maxDuration; lia).
  destruct (elapsed_and_microseconds_in_range 15005001000%Z 1000%Z) as (_ & _ & Ha & Hb).
  split; [exact H1|]. split; [exact (proj1 (Ha H1))|]. split; [exact (proj2 (Ha H1))|].
  split; [exact H2 | exact (Hb H2)].
Defined.

Lemma updateFrame_FrameInterval jpeg elapsed w :
  FrameInterval (stream (updateFrame jpeg elapsed w)) = FrameInterval (stream w).
Proof. rewrite updateFrame_eq. reflexivity. Qed.

(** X14. What a publish never touches, in any world: the registry, the
    start time and the frame interval stay as they are, no connection
    appears or disappears, nothing is written to any connection (every wire
    is unchanged: a publish only hands over a reference), and a channel that
    is not registered is left exactly as it was. *)
Theorem UpdateJPEG_leaves_registry_and_wires (jpeg : list byte) (now : time.Time)
    (w : World) (i : nat) :
  m (stream (UpdateJPEG jpeg now w)) = m (stream w) /\
  start (stream (UpdateJPEG jpeg now w)) = start (stream w) /\
  FrameInterval (stream (UpdateJPEG jpeg now w)) = FrameInterval (stream w) /\
  length (conns (UpdateJPEG jpeg now w)) = length (conns w) /\
  wire <$> conns (UpdateJPEG jpeg now w) !! i = wire <$> conns w !! i /\
  (m (stream w) !! i = None -> conns (UpdateJPEG jpeg now w) !! i = conns w !! i).
Proof.
  split; [apply UpdateJPEG_m|]. split; [apply UpdateJPEG_start|]. split.
  { destruct (decide (jpeg = [])) as [->|Hne]; [reflexivity|].
    rewrite UpdateJPEG_stream by exact Hne. apply updateFrame_FrameInterval. }
  split.
  { pose proof (conns_run_length [Publish jpeg now] w) as H. simpl in H.
    rewrite Nat.add_0_r in H. exact H. }
  split.
  - destruct (UpdateJPEG_conns_any jpeg now w i) as [->|(cn & Hcn & ->)]; [reflexivity|].
    rewrite Hcn. simpl. now rewrite trySend_wire.
  - intros Hnone. destruct (decide (jpeg = [])) as [->|Hne]; [reflexivity|].
    rewrite UpdateJPEG_conns by exact Hne.
    rewrite decide_False; [reflexivity|]. rewrite Hnone. intros [x Hx]. discriminate.
Qed.

Lemma UpdateJPEG_leaves_registry_and_wires_witness :
  m (stream (run [Attach 0%Z; Wake 0; Publish [x41] 5%Z; Write 0 false; Attach 6%Z; Wake 1]
                 NewStream)) !! 0 = None /\
  conns (UpdateJPEG [x42] 7%Z
           (run [Attach 0%Z; Wake 0; Publish [x41] 5%Z; Write 0 false; Attach 6%Z; Wake 1]
                NewStream)) !! 0
  = conns (run [Attach 0%Z; Wake 0; Publish [x41] 5%Z; Write 0 false; Attach 6%Z; Wake 1]
               NewStream) !! 0.
Proof.
  assert (H0 : m (stream (run [Attach 0%Z; Wake 0; Publish [x41] 5%Z; Write 0 false;
                               Attach 6%Z; Wake 1] NewStream)) !! 0 = None)
    by reflexivity.
  split; [exact H0|].
  apply (UpdateJPEG_leaves_registry_and_wires [x42] 7%Z _ 0). exact H0.
Defined.
